(** * fuel_test/ciswift.py: the environment description of the Swift test bed

    [CiSwift.describe_environment] builds the in-memory description of a
    test bed: three networks and one node per role name.  It is embedded
    here as a function in a state-and-exception monad, and the properties
    the specification states about it are proved of that function. *)

From Stdlib Require Import String List Bool Arith Lia.
Import ListNotations.
Local Open Scope string_scope.
Local Open Scope list_scope.

Set Implicit Arguments.

(** ** The data model of [devops.model] *)

(** Modelled from the spec: the class [Network] of [devops.model], which is
    not part of the sources.  A network has a name and a flag telling
    whether it provides DHCP; the constructor is called with the keywords
    [name] and [dhcp_server]. *)
Module Network.
Record t : Type := mk { name : string; dhcp_server : bool }.
End Network.

(** Modelled from the spec: the class [Interface] of [devops.model]; an
    interface refers to the network it is plugged into. *)
Module Interface.
Record t : Type := mk { network : Network.t }.
End Interface.

(** Modelled from the spec: the class [Node] of [devops.model]; a node has a
    name and an ordered collection of interfaces, one per network it is
    attached to. *)
Module Node.
Record t : Type := mk { name : string; interfaces : list Interface.t }.

(** The networks a node is attached to, in the order of its interfaces. *)
Definition attached (n : t) : list Network.t :=
  map Interface.network (interfaces n).
End Node.

(** Modelled from the spec: the class [Environment] of [devops.model]; a
    name, an ordered collection of networks and an ordered collection of
    nodes, both empty after construction. *)
Module Environment.
Record t : Type :=
  mk { name : string; networks : list Network.t; nodes : list Node.t }.

(** [Environment(name)] *)
Definition new (n : string) : t := mk n [] [].

(** [environment.networks.append(x)] *)
Definition networks_append (e : t) (x : Network.t) : t :=
  mk (name e) (networks e ++ [x]) (nodes e).

(** [environment.nodes.append(x)] *)
Definition nodes_append (e : t) (x : Node.t) : t :=
  mk (name e) (networks e) (nodes e ++ [x]).
End Environment.

(** The three name lists of the [settings] module.  They are globals of the
    process, read by [describe_environment]. *)
Module settings.
Record t : Type :=
  mk { storages : list string;
       proxies : list string;
       keystones : list string }.
End settings.

(** ** Effects: state and exceptions *)

(** The state a call runs in: the object [self] (an instance of a subclass
    of [Ci], of type [C]) and the globals of [settings]. *)
Record World (C : Type) : Type :=
  mkWorld { self : C; globals : settings.t }.

(** A computation either returns a value or raises an exception of type
    [E]; in both cases it leaves a state behind, as a Python call does. *)
Definition M (C E A : Type) : Type := World C -> (E + A) * World C.

Definition ret {C E A : Type} (a : A) : M C E A := fun w => (inr a, w).

Definition bind {C E A B : Type} (m : M C E A) (k : A -> M C E B) : M C E B :=
  fun w =>
    match m w with
    | (inr a, w') => k a w'
    | (inl e, w') => (inl e, w')
    end.

Notation "x <- m ;; k" := (bind m (fun x => k))
  (at level 61, m at next level, right associativity).

(** Reading a global or an attribute of [self]. *)
Definition read {C E A : Type} (f : World C -> A) : M C E A :=
  fun w => (inr (f w), w).

(** A method of [self]: it sees and changes the state of [self] only. *)
Definition method {C E A : Type} (f : C -> (E + A) * C) : M C E A :=
  fun w => let (r, c) := f (self w) in (r, mkWorld c (globals w)).

(** [for x in xs: body], where the loop body updates the local [acc]. *)
Fixpoint for_each {C E A : Type} (xs : list string)
    (body : string -> A -> M C E A) (acc : A) : M C E A :=
  match xs with
  | [] => ret acc
  | x :: xs' => acc' <- body x acc ;; for_each xs' body acc'
  end.

(** ** The class [CiSwift] *)

Module CiSwift.

Section describe.

(** The base class [Ci] is not part of the sources.  [C] is the state of
    an instance, [E] the exceptions its methods may raise;
    [environment_name] is the attribute [self.environment_name], and
    [describe_node] the factory method [self.describe_node(name, networks)],
    which returns a node or raises, and may change [self]. *)
Variable C : Type.
Variable E : Type.
Variable environment_name : C -> string.
Variable describe_node : string -> list Network.t -> C -> (E + Node.t) * C.

Definition describe_environment : M C E Environment.t :=
  name <- read (fun w => environment_name (self w)) ;;
  let environment := Environment.new name in
  let internal := Network.mk "internal" true in
  let environment := Environment.networks_append environment internal in
  let private := Network.mk "private" false in
  let environment := Environment.networks_append environment private in
  let public := Network.mk "public" true in
  let environment := Environment.networks_append environment public in
  master <- method (describe_node "master" [internal; private; public]) ;;
  let environment := Environment.nodes_append environment master in
  keystones <- read (fun w => settings.keystones (globals w)) ;;
  environment <- for_each keystones (fun node_name environment =>
    client <- method (describe_node node_name [internal; private; public]) ;;
    ret (Environment.nodes_append environment client)) environment ;;
  storages <- read (fun w => settings.storages (globals w)) ;;
  environment <- for_each storages (fun node_name environment =>
    client <- method (describe_node node_name [internal; private; public]) ;;
    ret (Environment.nodes_append environment client)) environment ;;
  proxies <- read (fun w => settings.proxies (globals w)) ;;
  environment <- for_each proxies (fun node_name environment =>
    client <- method (describe_node node_name [internal; private; public]) ;;
    ret (Environment.nodes_append environment client)) environment ;;
  ret environment.

(** *** Vocabulary of the specification *)

(** The three networks of the test bed, in the order the specification
    lists them. *)
Definition the_networks : list Network.t :=
  [ Network.mk "internal" true;
    Network.mk "private" false;
    Network.mk "public" true ].

(** The names of the nodes of the test bed in the order the specification
    gives: the master, the keystones, the storages, the proxies. *)
Definition node_names (g : settings.t) : list string :=
  "master" :: settings.keystones g ++ settings.storages g
           ++ settings.proxies g.

(** [describe_nodes names c] calls the factory once per name, in list order
    and each time with the three networks, from the state [c] of [self]; it
    stops at the first call that raises. *)
Fixpoint describe_nodes (names : list string) (c : C)
    : (E + list Node.t) * C :=
  match names with
  | [] => (inr [], c)
  | n :: names' =>
      match describe_node n the_networks c with
      | (inr nd, c') =>
          match describe_nodes names' c' with
          | (inr nds, c'') => (inr (nd :: nds), c'')
          | (inl e, c'') => (inl e, c'')
          end
      | (inl e, c') => (inl e, c')
      end
  end.

(** [made_for n nd]: some call of the factory for the name [n], with the
    three networks, returned the node [nd]. *)
Definition made_for (n : string) (nd : Node.t) : Prop :=
  exists c c', describe_node n the_networks c = (inr nd, c').

(** The environment [e] with the nodes [nds] appended to its nodes. *)
Definition add_nodes (e : Environment.t) (nds : list Node.t) : Environment.t :=
  Environment.mk (Environment.name e) (Environment.networks e)
    (Environment.nodes e ++ nds).

(** The environment of the given name with the three networks and the
    nodes [r], or the exception [r]. *)
Definition environment_of (name : string) (r : E + list Node.t)
    : E + Environment.t :=
  match r with
  | inr nds => inr (Environment.mk name the_networks nds)
  | inl e => inl e
  end.

(** What the specification assumes of the factory. *)

(** The factory returns a node from every state. *)
Definition factory_total : Prop :=
  forall n nets c, exists nd c', describe_node n nets c = (inr nd, c').

(** A node the factory returns has one interface per network of the list
    it was given, in the order of that list. *)
Definition factory_attaches : Prop :=
  forall n nets c nd c',
    describe_node n nets c = (inr nd, c') -> Node.attached nd = nets.

(** A node the factory returns bears the name it was asked for. *)
Definition factory_names : Prop :=
  forall n nets c nd c',
    describe_node n nets c = (inr nd, c') -> Node.name nd = n.

(** The outcome of the factory (the node, or the exception) is a function
    of its two arguments: it does not depend on the state of [self]. *)
Definition factory_deterministic : Prop :=
  forall n nets c1 c2,
    fst (describe_node n nets c1) = fst (describe_node n nets c2).

End describe.

(** *** Counting the calls of the factory *)

(** [counting describe_node] behaves as [describe_node] and counts its
    calls in a second component of the state. *)
Definition counting {C E : Type}
    (describe_node : string -> list Network.t -> C -> (E + Node.t) * C)
    : string -> list Network.t -> C * nat -> (E + Node.t) * (C * nat) :=
  fun n nets s =>
    let (r, c') := describe_node n nets (fst s) in (r, (c', S (snd s))).

(** *** A concrete base class *)

(** The state of an instance: its environment name and the names of the
    nodes it described so far, latest first. *)
Record ci : Type :=
  mkCi { ci_environment_name : string; described : list string }.

Inductive exn : Type :=
  | DuplicateNode (name : string).

(** Modelled from the spec: the method [describe_node] of the base class
    [Ci], which is not part of the sources.  It creates a node of the given
    name with one interface per network of the list, in list order. *)
Definition describe_node_std (name : string) (networks : list Network.t)
    (c : ci) : (exn + Node.t) * ci :=
  (inr (Node.mk name (map Interface.mk networks)),
   mkCi (ci_environment_name c) (name :: described c)).

(** A factory that refuses to describe the same name twice; it serves to
    exercise the exceptional exits. *)
Definition describe_node_strict (name : string) (networks : list Network.t)
    (c : ci) : (exn + Node.t) * ci :=
  if in_dec string_dec name (described c)
  then (inl (DuplicateNode name), c)
  else describe_node_std name networks c.

(** The input of the example of the specification. *)
Definition example_settings : settings.t :=
  settings.mk ["storage-1"; "storage-2"] [] ["keystone-1"].

Definition example_world : World ci :=
  mkWorld (mkCi "swift" []) example_settings.

(** The same settings seen by an instance that described a node before. *)
Definition used_world : World ci :=
  mkWorld (mkCi "swift" ["spare"]) example_settings.

(** Settings with one name of each role, with no name at all, and with the
    same name in two roles. *)
Definition full_world : World ci :=
  mkWorld (mkCi "swift" [])
    (settings.mk ["storage-1"] ["proxy-1"] ["keystone-1"]).

Definition empty_world : World ci :=
  mkWorld (mkCi "swift" []) (settings.mk [] [] []).

Definition clash_world : World ci :=
  mkWorld (mkCi "swift" []) (settings.mk ["node-1"] [] ["node-1"]).

(** ** Properties *)

Unset Implicit Arguments.

Section properties.

Variable C : Type.
Variable E : Type.
Variable environment_name : C -> string.
Variable describe_node : string -> list Network.t -> C -> (E + Node.t) * C.

Local Abbreviation run :=
  (describe_environment environment_name describe_node).
Local Abbreviation calls := (describe_nodes describe_node).

Lemma world_eta (w : World C) : mkWorld (self w) (globals w) = w.
Proof. now destruct w. Qed.

Lemma add_nodes_nil (e : Environment.t) : add_nodes e [] = e.
Proof. destruct e; unfold add_nodes; simpl; now rewrite app_nil_r. Qed.

Lemma add_nodes_cons (e : Environment.t) (nd : Node.t) (nds : list Node.t) :
  add_nodes (Environment.nodes_append e nd) nds = add_nodes e (nd :: nds).
Proof.
  unfold add_nodes, Environment.nodes_append; simpl.
  now rewrite <- app_assoc.
Qed.

(** One loop of [describe_environment] is a run of [describe_nodes] over
    the list it iterates on, the nodes being appended to the environment. *)
Lemma for_each_describe (xs : list string) :
  forall (e : Environment.t) (w : World C),
    for_each xs (fun node_name environment =>
      client <- method (describe_node node_name the_networks) ;;
      ret (Environment.nodes_append environment client)) e w
    = let (r, c) := calls xs (self w) in
      (match r with inr nds => inr (add_nodes e nds) | inl x => inl x end,
       mkWorld c (globals w)).
Proof.
  induction xs as [|x xs IH]; intros e w; simpl.
  - unfold ret. now rewrite add_nodes_nil, world_eta.
  - unfold bind at 1. unfold bind, method, ret.
    destruct (describe_node x the_networks (self w)) as [[ex|nd] c1]; simpl.
    + reflexivity.
    + rewrite IH; simpl.
      destruct (calls xs c1) as [[ex|nds] c2]; simpl; [reflexivity|].
      now rewrite add_nodes_cons.
Qed.

(** The calls for a concatenation are the calls for its first part followed
    by those for its second part. *)
Lemma describe_nodes_app (xs ys : list string) :
  forall c : C,
    calls (xs ++ ys) c
    = match calls xs c with
      | (inr a, c1) =>
          match calls ys c1 with
          | (inr b, c2) => (inr (a ++ b), c2)
          | (inl x, c2) => (inl x, c2)
          end
      | (inl x, c1) => (inl x, c1)
      end.
Proof.
  induction xs as [|x xs IH]; intros c; simpl.
  - now destruct (calls ys c) as [[ex|b] c2].
  - destruct (describe_node x the_networks c) as [[ex|nd] c1]; [reflexivity|].
    rewrite IH.
    destruct (calls xs c1) as [[ex|a] c2]; [reflexivity|].
    now destruct (calls ys c2) as [[ex|b] c3].
Qed.

(** [describe_environment] is one run of the factory over the names of the
    nodes, in the order of the specification; the state of [self] is the
    one these calls leave, and the globals are untouched. *)
Lemma describe_environment_run (w : World C) :
  run w
  = let (r, c) := calls (node_names (globals w)) (self w) in
    (environment_of (environment_name (self w)) r, mkWorld c (globals w)).
Proof.
  unfold describe_environment, node_names.
  unfold bind at 1. unfold read at 1.
  unfold bind at 1. unfold method at 1.
  change [Network.mk "internal" true; Network.mk "private" false;
          Network.mk "public" true] with the_networks.
  simpl calls.
  destruct (describe_node "master" the_networks (self w)) as [[ex|m] c0];
    [reflexivity|].
  unfold bind at 1. unfold read at 1. cbn [globals self].
  unfold bind at 1. rewrite for_each_describe. cbn [globals self].
  rewrite describe_nodes_app.
  destruct (calls (settings.keystones (globals w)) c0) as [[ex|ks] c1];
    [reflexivity|].
  rewrite describe_nodes_app.
  unfold bind at 1. unfold read at 1. cbn [globals self].
  unfold bind at 1. rewrite for_each_describe. cbn [globals self].
  destruct (calls (settings.storages (globals w)) c1) as [[ex|ss] c2];
    [reflexivity|].
  unfold bind at 1. unfold read at 1. cbn [globals self].
  unfold bind at 1. rewrite for_each_describe. cbn [globals self].
  destruct (calls (settings.proxies (globals w)) c2) as [[ex|ps] c3];
    [reflexivity|].
  unfold ret, add_nodes, environment_of, Environment.nodes_append,
    Environment.networks_append, Environment.new; simpl.
  now rewrite <- !app_assoc.
Qed.

(** A run that returns: the calls returned the nodes of the environment. *)
Lemma run_returns (w w' : World C) (env : Environment.t) :
  run w = (inr env, w') ->
  exists nds,
    calls (node_names (globals w)) (self w) = (inr nds, self w')
    /\ env = Environment.mk (environment_name (self w)) the_networks nds
    /\ globals w' = globals w.
Proof.
  rewrite describe_environment_run.
  destruct (calls (node_names (globals w)) (self w)) as [[ex|nds] c];
    simpl; intros H; inversion H; subst; clear H.
  exists nds. now simpl.
Qed.

(** *** The calls of the factory *)

Lemma describe_nodes_made (names : list string) :
  forall (c c' : C) (nds : list Node.t),
    calls names c = (inr nds, c') ->
    Forall2 (made_for describe_node) names nds.
Proof.
  induction names as [|n names IH]; simpl; intros c c' nds H.
  - inversion H. constructor.
  - destruct (describe_node n the_networks c) as [[ex|nd] c1] eqn:Hn;
      [discriminate|].
    destruct (calls names c1) as [[ex|nds'] c2] eqn:Hr; [discriminate|].
    inversion H; subst; clear H.
    constructor; [now exists c, c1 | eauto].
Qed.

Lemma describe_nodes_length (names : list string) :
  forall (c c' : C) (nds : list Node.t),
    calls names c = (inr nds, c') -> length nds = length names.
Proof.
  intros c c' nds H.
  symmetry. eapply Forall2_length, describe_nodes_made, H.
Qed.

Lemma describe_nodes_total :
  factory_total describe_node ->
  forall (names : list string) (c : C),
    exists nds c', calls names c = (inr nds, c').
Proof.
  intros Htot names.
  induction names as [|n names IH]; intros c; simpl.
  - now exists [], c.
  - destruct (Htot n the_networks c) as (nd & c1 & ->).
    destruct (IH c1) as (nds & c2 & ->).
    now exists (nd :: nds), c2.
Qed.

Lemma describe_nodes_raise (names : list string) :
  forall (c c' : C) (ex : E),
    calls names c = (inl ex, c') ->
    exists n c1 c2,
      In n names /\ describe_node n the_networks c1 = (inl ex, c2).
Proof.
  induction names as [|n names IH]; simpl; intros c c' ex H.
  - discriminate.
  - destruct (describe_node n the_networks c) as [[ex1|nd] c1] eqn:Hn.
    + inversion H; subst. exists n, c, c'. auto.
    + destruct (calls names c1) as [[ex2|nds'] c2] eqn:Hr; [|discriminate].
      inversion H; subst; clear H.
      destruct (IH _ _ _ Hr) as (m & d1 & d2 & Hin & Hm).
      exists m, d1, d2. auto.
Qed.

(** Names of the nodes the calls return, when the factory names them as
    asked. *)
Lemma made_names (names : list string) (nds : list Node.t) :
  factory_names describe_node ->
  Forall2 (made_for describe_node) names nds ->
  map Node.name nds = names.
Proof.
  intros Hnm H; induction H as [|n nd names nds (c & c' & Hc) _ IH]; simpl.
  - reflexivity.
  - now rewrite IH, (Hnm _ _ _ _ _ Hc).
Qed.

(** Networks of the nodes the calls return, when the factory attaches them
    as asked. *)
Lemma made_attached (names : list string) (nds : list Node.t) :
  factory_attaches describe_node ->
  Forall2 (made_for describe_node) names nds ->
  Forall (fun nd => Node.attached nd = the_networks) nds.
Proof.
  intros Hat H; induction H as [|n nd names nds (c & c' & Hc) _ IH].
  - constructor.
  - constructor; [exact (Hat _ _ _ _ _ Hc) | exact IH].
Qed.

Lemma attached_three (nd : Node.t) :
  Node.attached nd = the_networks -> length (Node.interfaces nd) = 3.
Proof.
  unfold Node.attached; intros H.
  now rewrite <- (length_map Interface.network), H.
Qed.

(** *** Nodes and networks of the result *)

(** C1.  Whatever the three name lists, the nodes of the environment that
    [describe_environment] returns are, in this order: a node made by the
    factory for ["master"], then one node made for each name of
    [keystones] in list order, then one for each name of [storages], then
    one for each name of [proxies].  When the factory names a node as it is
    asked to, the names of the nodes are exactly that list of names. *)
Theorem nodes_order (w w' : World C) (env : Environment.t) :
  run w = (inr env, w') ->
  Forall2 (made_for describe_node)
    ("master" :: settings.keystones (globals w)
               ++ settings.storages (globals w)
               ++ settings.proxies (globals w))
    (Environment.nodes env)
  /\ (factory_names describe_node ->
      map Node.name (Environment.nodes env)
      = "master" :: settings.keystones (globals w)
                 ++ settings.storages (globals w)
                 ++ settings.proxies (globals w)).
Proof.
  intros H. destruct (run_returns _ _ _ H) as (nds & Hc & -> & _).
  apply describe_nodes_made in Hc. simpl.
  split; [exact Hc | intros Hnm; exact (made_names _ _ Hnm Hc)].
Qed.

(** C2.  For non-empty lists [keystones], [storages] and [proxies], the
    networks of the environment returned are exactly three, named
    [internal], [private] and [public] in that order, with the DHCP flags
    [True], [False] and [True]. *)
Theorem three_networks (w w' : World C) (env : Environment.t) :
  settings.keystones (globals w) <> [] ->
  settings.storages (globals w) <> [] ->
  settings.proxies (globals w) <> [] ->
  run w = (inr env, w') ->
  Environment.networks env
  = [ Network.mk "internal" true;
      Network.mk "private" false;
      Network.mk "public" true ].
Proof.
  intros _ _ _ H. now destruct (run_returns _ _ _ H) as (nds & _ & -> & _).
Qed.

(** C3.  The environment returned has exactly
    [1 + len(keystones) + len(storages) + len(proxies)] nodes. *)
Theorem nodes_count (w w' : World C) (env : Environment.t) :
  run w = (inr env, w') ->
  length (Environment.nodes env)
  = 1 + length (settings.keystones (globals w))
      + length (settings.storages (globals w))
      + length (settings.proxies (globals w)).
Proof.
  intros H. destruct (run_returns _ _ _ H) as (nds & Hc & -> & _).
  apply describe_nodes_length in Hc. simpl Environment.nodes.
  rewrite Hc. unfold node_names. simpl. rewrite !length_app. lia.
Qed.

(** C4.  Every node appended to the environment is made by a call of the
    factory with the same list of three networks, the one stored in the
    environment: the nodes of the environment returned correspond, position
    by position, to ["master"] and the names of [keystones], [storages] and
    [proxies], each node being the result of a call of the factory for its
    name with the list [environment.networks], which is [internal],
    [private], [public].  So, when the factory creates one interface per
    network of the list it is given, each of these nodes is attached to
    these three networks and has three interfaces. *)
Theorem nodes_on_all_networks (w w' : World C) (env : Environment.t) :
  run w = (inr env, w') ->
  Environment.networks env
  = [ Network.mk "internal" true;
      Network.mk "private" false;
      Network.mk "public" true ]
  /\ Forall2 (fun n nd =>
        (exists c c',
           describe_node n (Environment.networks env) c = (inr nd, c'))
        /\ (factory_attaches describe_node ->
            Node.attached nd = Environment.networks env
            /\ length (Node.interfaces nd) = 3))
       ("master" :: settings.keystones (globals w)
                  ++ settings.storages (globals w)
                  ++ settings.proxies (globals w))
       (Environment.nodes env).
Proof.
  intros H. destruct (run_returns _ _ _ H) as (nds & Hc & -> & _).
  apply describe_nodes_made in Hc. simpl.
  split; [reflexivity|].
  change ("master" :: settings.keystones (globals w)
                    ++ settings.storages (globals w)
                    ++ settings.proxies (globals w))
    with (node_names (globals w)).
  clear H. induction Hc as [|n nd names nds' Hm _ IH].
  - constructor.
  - constructor; [|exact IH].
    split; [exact Hm|].
    intros Hat. destruct Hm as (c & c' & Hcall).
    pose proof (Hat _ _ _ _ _ Hcall) as Hnd.
    split; [exact Hnd | exact (attached_three _ Hnd)].
Qed.

(** C5.  With [keystones = ["keystone-1"]],
    [storages = ["storage-1", "storage-2"]] and [proxies = []], and a
    factory that returns a node of the name asked with one interface per
    network, [describe_environment] returns an environment of four nodes
    named [master], [keystone-1], [storage-1], [storage-2] in this order,
    each with three interfaces on the three networks, and of the three
    networks [internal], [private], [public] with flags [True], [False],
    [True]. *)
Theorem example_environment (c : C) :
  factory_total describe_node ->
  factory_names describe_node ->
  factory_attaches describe_node ->
  exists env w',
    run (mkWorld c {| settings.keystones := ["keystone-1"];
                      settings.storages := ["storage-1"; "storage-2"];
                      settings.proxies := [] |})
    = (inr env, w')
    /\ length (Environment.nodes env) = 4
    /\ map Node.name (Environment.nodes env)
       = ["master"; "keystone-1"; "storage-1"; "storage-2"]
    /\ Forall (fun nd =>
          length (Node.interfaces nd) = 3
          /\ Node.attached nd = Environment.networks env)
         (Environment.nodes env)
    /\ length (Environment.networks env) = 3
    /\ map Network.name (Environment.networks env)
       = ["internal"; "private"; "public"]
    /\ map Network.dhcp_server (Environment.networks env)
       = [true; false; true].
Proof.
  intros Htot Hnm Hat.
  set (g := {| settings.keystones := ["keystone-1"];
               settings.storages := ["storage-1"; "storage-2"];
               settings.proxies := [] |}).
  destruct (describe_nodes_total Htot (node_names g) c) as (nds & c' & Hc).
  exists (Environment.mk (environment_name c) the_networks nds),
         (mkWorld c' g).
  split.
  { rewrite describe_environment_run. cbn [globals self]. now rewrite Hc. }
  pose proof (describe_nodes_made _ _ _ _ Hc) as Hm.
  cbn [Environment.nodes Environment.networks].
  split; [now rewrite (describe_nodes_length _ _ _ _ Hc)|].
  split; [exact (made_names _ _ Hnm Hm)|].
  split; [|now simpl].
  eapply Forall_impl; [|exact (made_attached _ _ Hat Hm)].
  intros nd Hnd. split; [exact (attached_three _ Hnd) | exact Hnd].
Qed.

(** C10.  The name of the environment returned is [self.environment_name]
    as it is when the method is called; and when the three name lists are
    empty the environment still has exactly three networks and exactly one
    node, made by the factory for ["master"]. *)
Theorem name_and_empty_lists (w w' : World C) (env : Environment.t) :
  run w = (inr env, w') ->
  Environment.name env = environment_name (self w)
  /\ (settings.keystones (globals w) = [] ->
      settings.storages (globals w) = [] ->
      settings.proxies (globals w) = [] ->
      length (Environment.networks env) = 3
      /\ length (Environment.nodes env) = 1
      /\ exists master,
           Environment.nodes env = [master]
           /\ made_for describe_node "master" master).
Proof.
  intros H. destruct (run_returns _ _ _ H) as (nds & Hc & -> & _).
  split; [reflexivity|].
  intros Hk Hs Hp. unfold node_names in Hc. rewrite Hk, Hs, Hp in Hc.
  apply describe_nodes_made in Hc. simpl in Hc.
  inversion Hc as [|? master ? rest Hm Hrest]; subst.
  inversion Hrest; subst. simpl.
  split; [reflexivity|]. split; [reflexivity|].
  now exists master.
Qed.

(** *** Determinism, failure, effects, termination *)

Lemma describe_nodes_deterministic :
  factory_deterministic describe_node ->
  forall (names : list string) (c1 c2 : C),
    fst (calls names c1) = fst (calls names c2).
Proof.
  intros Hdet names.
  induction names as [|n names IH]; intros c1 c2; simpl; [reflexivity|].
  pose proof (Hdet n the_networks c1 c2) as Hn.
  destruct (describe_node n the_networks c1) as [r1 d1].
  destruct (describe_node n the_networks c2) as [r2 d2].
  simpl in Hn; subst r2.
  destruct r1 as [ex|nd]; [reflexivity|].
  pose proof (IH d1 d2) as Hr.
  destruct (calls names d1) as [s1 e1].
  destruct (calls names d2) as [s2 e2].
  simpl in Hr; subst s2.
  now destruct s1.
Qed.

(** The state of [self] moves only by steps of the factory. *)
Lemma describe_nodes_steps (R : C -> C -> Prop) :
  (forall c, R c c) ->
  (forall a b c, R a b -> R b c -> R a c) ->
  (forall n nets c, R c (snd (describe_node n nets c))) ->
  forall (names : list string) (c : C), R c (snd (calls names c)).
Proof.
  intros Hrefl Htrans Hstep names.
  induction names as [|n names IH]; intros c; simpl; [apply Hrefl|].
  pose proof (Hstep n the_networks c) as Hn.
  destruct (describe_node n the_networks c) as [[ex|nd] c1]; simpl in Hn;
    [exact Hn|].
  pose proof (IH c1) as Hr.
  destruct (calls names c1) as [[ex|nds] c2]; simpl in Hr |- *;
    exact (Htrans _ _ _ Hn Hr).
Qed.

(** Counting the calls changes neither the outcome nor the state, and the
    count grows by at most the number of names, by exactly that number
    when no call raises. *)
Lemma describe_nodes_counting (names : list string) :
  forall (c : C) (k : nat),
    let out := describe_nodes (counting describe_node) names (c, k) in
    fst out = fst (calls names c)
    /\ fst (snd out) = snd (calls names c)
    /\ snd (snd out) <= k + length names
    /\ (forall nds, fst out = inr nds -> snd (snd out) = k + length names).
Proof.
  induction names as [|n names IH]; intros c k; cbv zeta; simpl.
  - repeat split; try reflexivity; intros; lia.
  - change (counting describe_node n the_networks (c, k))
      with (let (r, c') := describe_node n the_networks c in (r, (c', S k))).
    destruct (describe_node n the_networks c) as [[ex|nd] c1]; simpl.
    + repeat split; [lia | discriminate].
    + destruct (IH c1 (S k)) as (H1 & H2 & H3 & H4).
      cbv zeta in H1, H2, H3, H4.
      destruct (describe_nodes (counting describe_node) names (c1, S k))
        as [[ex|nds] [c2 k2]];
      destruct (calls names c1) as [[ex'|nds'] c2']; simpl in *;
        try discriminate; inversion H1; subst.
      * repeat split; [lia | discriminate].
      * repeat split; [lia|]. intros ? _. rewrite (H4 nds' eq_refl). lia.
Qed.

(** C6.  [describe_environment] is deterministic: when the factory is (its
    outcome a function of the name and the networks it is given), two runs
    with the same [environment_name] and the same three name lists return
    equal environments (or raise the same exception), whatever else
    differs between the two states. *)
Theorem deterministic (w1 w2 : World C) :
  factory_deterministic describe_node ->
  environment_name (self w1) = environment_name (self w2) ->
  globals w1 = globals w2 ->
  fst (run w1) = fst (run w2).
Proof.
  intros Hdet Hname Hg. rewrite !describe_environment_run, Hg, Hname.
  pose proof (describe_nodes_deterministic Hdet (node_names (globals w2))
                (self w1) (self w2)) as H.
  destruct (calls (node_names (globals w2)) (self w1)) as [r1 c1].
  destruct (calls (node_names (globals w2)) (self w2)) as [r2 c2].
  simpl in *. now subst.
Qed.

(** C7.  [describe_environment] has no failure of its own.  When the
    factory always returns, so does [describe_environment], whatever the
    name lists (empty, or with a name twice), and its result is fully
    populated: it bears the environment name and has the three networks
    and one node per name.  And an exception that leaves
    [describe_environment] was raised by a call of the factory. *)
Theorem raises_nothing_itself (w : World C) :
  (factory_total describe_node ->
   exists env w',
     run w = (inr env, w')
     /\ Environment.name env = environment_name (self w)
     /\ Environment.networks env
        = [ Network.mk "internal" true;
            Network.mk "private" false;
            Network.mk "public" true ]
     /\ length (Environment.nodes env)
        = 1 + length (settings.keystones (globals w))
            + length (settings.storages (globals w))
            + length (settings.proxies (globals w)))
  /\ (forall ex w',
       run w = (inl ex, w') ->
       exists n c c',
         describe_node n
           [ Network.mk "internal" true;
             Network.mk "private" false;
             Network.mk "public" true ] c
         = (inl ex, c')).
Proof.
  split.
  - intros Htot.
    destruct (describe_nodes_total Htot (node_names (globals w)) (self w))
      as (nds & c' & Hc).
    exists (Environment.mk (environment_name (self w)) the_networks nds),
           (mkWorld c' (globals w)).
    split; [rewrite describe_environment_run; now rewrite Hc|].
    split; [reflexivity|]. split; [reflexivity|].
    simpl Environment.nodes. rewrite (describe_nodes_length _ _ _ _ Hc).
    unfold node_names. simpl. rewrite !length_app. lia.
  - intros ex w'. rewrite describe_environment_run.
    destruct (calls (node_names (globals w)) (self w)) as [[ex'|nds] c]
      eqn:Hc; simpl; intros H; inversion H; subst.
    destruct (describe_nodes_raise _ _ _ _ Hc) as (n & c1 & c2 & _ & Hn).
    now exists n, c1, c2.
Qed.

(** C8.  [describe_environment] has no effect of its own on the state: it
    leaves the three name lists of [settings] as they were, and the state
    of [self] is the one the calls of the factory leave (so it is related
    to the initial one by every preorder that each call of the factory
    respects), whether it returns or raises.  The embedding has no
    operation for input or output, as the source has none. *)
Theorem no_effect_of_its_own (w : World C) :
  globals (snd (run w)) = globals w
  /\ self (snd (run w)) = snd (calls (node_names (globals w)) (self w))
  /\ (forall R : C -> C -> Prop,
       (forall c, R c c) ->
       (forall a b c, R a b -> R b c -> R a c) ->
       (forall n nets c, R c (snd (describe_node n nets c))) ->
       R (self w) (self (snd (run w)))).
Proof.
  assert (Hs : self (snd (run w))
               = snd (calls (node_names (globals w)) (self w))).
  { rewrite describe_environment_run.
    now destruct (calls (node_names (globals w)) (self w)). }
  split; [|split; [exact Hs|]].
  - rewrite describe_environment_run.
    now destruct (calls (node_names (globals w)) (self w)).
  - intros R Hrefl Htrans Hstep. rewrite Hs.
    now apply describe_nodes_steps.
Qed.

End properties.

Section termination.

Variable C : Type.
Variable E : Type.
Variable environment_name : C -> string.
Variable describe_node : string -> list Network.t -> C -> (E + Node.t) * C.

Local Abbreviation run :=
  (describe_environment environment_name describe_node).
Local Abbreviation calls := (describe_nodes describe_node).

(** C9.  [describe_environment] terminates: it is a total function, and a
    run makes at most [1 + len(keystones) + len(storages) + len(proxies)]
    calls of the factory, one for the master and one per turn of the three
    loops, and exactly that many when it returns.  Counting the calls does
    not change the outcome. *)
Theorem terminates_in_bounded_calls (w : World C) (k : nat) :
  let bound := 1 + length (settings.keystones (globals w))
                 + length (settings.storages (globals w))
                 + length (settings.proxies (globals w)) in
  let out := describe_environment (fun s => environment_name (fst s))
               (counting describe_node)
               (mkWorld (self w, k) (globals w)) in
  fst out = fst (run w)
  /\ snd (self (snd out)) <= k + bound
  /\ (forall env, fst out = inr env -> snd (self (snd out)) = k + bound).
Proof.
  intros bound out. subst out.
  assert (Hb : length (node_names (globals w)) = bound).
  { subst bound. unfold node_names. simpl. rewrite !length_app. lia. }
  rewrite !describe_environment_run. cbn [self globals fst].
  destruct (describe_nodes_counting _ _ describe_node
              (node_names (globals w)) (self w) k) as (H1 & _ & H3 & H4).
  rewrite Hb in H3, H4. cbv zeta in H1, H3, H4.
  destruct (describe_nodes (counting describe_node)
              (node_names (globals w)) (self w, k)) as [r [c2 k2]].
  destruct (calls (node_names (globals w)) (self w)) as [r' c'].
  simpl in *. subst r'.
  split; [reflexivity|]. split; [exact H3|].
  intros env Henv. destruct r as [ex|nds]; [discriminate|].
  exact (H4 nds eq_refl).
Qed.

End termination.

(** ** Further properties of [describe_environment] *)

Section further.

Variable C : Type.
Variable E : Type.
Variable environment_name : C -> string.
Variable describe_node : string -> list Network.t -> C -> (E + Node.t) * C.

Local Abbreviation run :=
  (describe_environment environment_name describe_node).
Local Abbreviation calls := (describe_nodes describe_node).

(** Calls that raise: the names split at the first call that raises. *)
Lemma describe_nodes_raise_split (names : list string) :
  forall (c c' : C) (ex : E),
    calls names c = (inl ex, c') ->
    exists pre n post nds c1,
      names = pre ++ n :: post
      /\ calls pre c = (inr nds, c1)
      /\ describe_node n the_networks c1 = (inl ex, c').
Proof.
  induction names as [|m names IH]; simpl; intros c c' ex H.
  - discriminate.
  - destruct (describe_node m the_networks c) as [[ex1|nd] c1] eqn:Hm.
    + inversion H; subst; clear H.
      exists [], m, names, [], c. now simpl.
    + destruct (calls names c1) as [[ex2|nds'] c2] eqn:Hr; [|discriminate].
      inversion H; subst; clear H.
      destruct (IH _ _ _ Hr) as (pre & n & post & nds & d1 & -> & Hp & Hn).
      exists (m :: pre), n, post, (nd :: nds), d1.
      simpl. rewrite Hm, Hp. auto.
Qed.

(** X1.  The first call of the factory that raises ends
    [describe_environment]: when the calls for the names before [n] return
    and the call for [n] raises [ex], [describe_environment] raises [ex],
    returns no environment, makes no call for the names after [n], and
    leaves [self] as the call that raised left it. *)
Theorem first_failure_propagates (w : World C) (pre post : list string)
    (n : string) (nds : list Node.t) (c1 c2 : C) (ex : E) :
  "master" :: settings.keystones (globals w)
           ++ settings.storages (globals w)
           ++ settings.proxies (globals w) = pre ++ n :: post ->
  calls pre (self w) = (inr nds, c1) ->
  describe_node n
    [ Network.mk "internal" true;
      Network.mk "private" false;
      Network.mk "public" true ] c1 = (inl ex, c2) ->
  run w = (inl ex, mkWorld c2 (globals w)).
Proof.
  intros Hsplit Hpre Hn.
  rewrite describe_environment_run. unfold node_names.
  rewrite Hsplit, describe_nodes_app, Hpre. simpl.
  change [Network.mk "internal" true; Network.mk "private" false;
          Network.mk "public" true] with the_networks in Hn.
  now rewrite Hn.
Qed.

(** X2.  Conversely, when [describe_environment] raises [ex], the names of
    the nodes split at a name [n] such that the calls for the names before
    [n] returned and the call for [n], made in the state they left, raised
    [ex]; the state left is the one that call left. *)
Theorem failure_at_first_failing_call (w w' : World C) (ex : E) :
  run w = (inl ex, w') ->
  exists pre n post nds c1,
    "master" :: settings.keystones (globals w)
             ++ settings.storages (globals w)
             ++ settings.proxies (globals w) = pre ++ n :: post
    /\ calls pre (self w) = (inr nds, c1)
    /\ describe_node n
         [ Network.mk "internal" true;
           Network.mk "private" false;
           Network.mk "public" true ] c1 = (inl ex, self w')
    /\ globals w' = globals w.
Proof.
  rewrite describe_environment_run.
  destruct (calls (node_names (globals w)) (self w)) as [[ex'|nds0] c]
    eqn:Hc; simpl; intros H; inversion H; subst; clear H.
  destruct (describe_nodes_raise_split _ _ _ _ Hc)
    as (pre & n & post & nds & c1 & Hs & Hp & Hn).
  exists pre, n, post, nds, c1. simpl. auto.
Qed.

(** X3.  Names are not merged: with a factory that names a node as asked,
    the environment returned has, for every name, as many nodes of that
    name as the name occurs in ["master"] and the three lists together.  A
    name in two lists, or twice in one, or ["master"] in a list, gives
    several nodes of the same name. *)
Theorem one_node_per_occurrence (w w' : World C) (env : Environment.t)
    (n : string) :
  factory_names describe_node ->
  run w = (inr env, w') ->
  count_occ string_dec (map Node.name (Environment.nodes env)) n
  = (if string_dec "master" n then 1 else 0)
    + count_occ string_dec (settings.keystones (globals w)) n
    + count_occ string_dec (settings.storages (globals w)) n
    + count_occ string_dec (settings.proxies (globals w)) n.
Proof.
  intros Hnm H.
  destruct (run_returns _ _ _ _ _ _ _ H) as (nds & Hc & -> & _).
  apply describe_nodes_made in Hc.
  simpl Environment.nodes. rewrite (made_names _ _ _ _ _ Hnm Hc).
  unfold node_names. cbn [count_occ].
  destruct (string_dec "master" n); rewrite !count_occ_app; lia.
Qed.

(** X4.  The roles leave no trace: the outcome and the state of [self]
    depend on the three lists only through the list
    [keystones + storages + proxies].  Two settings with the same
    concatenation give the same environment. *)
Theorem roles_leave_no_trace (c : C) (g1 g2 : settings.t) :
  settings.keystones g1 ++ settings.storages g1 ++ settings.proxies g1
  = settings.keystones g2 ++ settings.storages g2 ++ settings.proxies g2 ->
  fst (run (mkWorld c g1)) = fst (run (mkWorld c g2))
  /\ self (snd (run (mkWorld c g1))) = self (snd (run (mkWorld c g2))).
Proof.
  intros Hcat. rewrite !describe_environment_run. cbn [self globals].
  unfold node_names. rewrite Hcat.
  destruct (calls _ c) as [r c']. now simpl.
Qed.

(** X5.  One more name at the end of [proxies] is one more call: when
    [describe_environment] returns [env] for some settings, then for the
    same settings with [n] appended to [proxies] it makes the same calls
    and then the call for [n] in the state they left, and returns [env]
    with the node of that call appended, or raises what that call
    raises. *)
Theorem one_more_proxy (c : C) (ks ss ps : list string) (n : string)
    (env : Environment.t) (w' : World C) :
  run (mkWorld c (settings.mk ss ps ks)) = (inr env, w') ->
  run (mkWorld c (settings.mk ss (ps ++ [n]) ks))
  = match describe_node n (Environment.networks env) (self w') with
    | (inr nd, c') =>
        (inr (Environment.nodes_append env nd),
         mkWorld c' (settings.mk ss (ps ++ [n]) ks))
    | (inl ex, c') => (inl ex, mkWorld c' (settings.mk ss (ps ++ [n]) ks))
    end.
Proof.
  intros H.
  destruct (run_returns _ _ _ _ _ _ _ H) as (nds & Hc & -> & _).
  cbn [self globals] in Hc. cbn [Environment.networks].
  rewrite describe_environment_run. cbn [self globals].
  assert (Hn : node_names (settings.mk ss (ps ++ [n]) ks)
               = node_names (settings.mk ss ps ks) ++ [n]).
  { unfold node_names. simpl. now rewrite !app_assoc. }
  rewrite Hn, describe_nodes_app, Hc. simpl.
  now destruct (describe_node n the_networks (self w')) as [[ex|nd] c'].
Qed.

(** X6.  The description can be asked for again: with a factory whose
    outcome does not depend on the state of [self] and that leaves
    [environment_name] as it is, a second run, in the state the first one
    left, has the outcome of the first. *)
Theorem repeatable (w : World C) :
  factory_deterministic describe_node ->
  (forall n nets c,
     environment_name (snd (describe_node n nets c)) = environment_name c) ->
  fst (run (snd (run w))) = fst (run w).
Proof.
  intros Hdet Hname.
  assert (Hw : globals (snd (run w)) = globals w
               /\ environment_name (self (snd (run w)))
                  = environment_name (self w)).
  { rewrite describe_environment_run.
    pose proof (describe_nodes_steps _ _ describe_node
                  (fun a b => environment_name b = environment_name a)
                  (fun _ => eq_refl)
                  (fun a b d Hab Hbd => eq_trans Hbd Hab)
                  Hname (node_names (globals w)) (self w)) as Hs.
    destruct (calls (node_names (globals w)) (self w)) as [r c'].
    now simpl in *. }
  destruct Hw as (Hg & Hn).
  remember (snd (run w)) as w1 eqn:Hw1. clear Hw1.
  rewrite (describe_environment_run _ _ _ _ w1), Hg, Hn.
  rewrite (describe_environment_run _ _ _ _ w).
  pose proof (describe_nodes_deterministic _ _ describe_node Hdet
                (node_names (globals w)) (self w1) (self w)) as Hd.
  destruct (calls (node_names (globals w)) (self w1)) as [r1 d1].
  destruct (calls (node_names (globals w)) (self w)) as [r2 d2].
  simpl in *. now subst.
Qed.

End further.

(** ** The concrete base class *)

Lemma std_total : factory_total describe_node_std.
Proof. intros n nets c. unfold describe_node_std. eauto. Qed.

Lemma std_names : factory_names describe_node_std.
Proof. intros n nets c nd c' H. now inversion H. Qed.

Lemma std_attaches : factory_attaches describe_node_std.
Proof.
  intros n nets c nd c' H. inversion H; subst; clear H.
  unfold Node.attached; simpl. rewrite map_map; simpl. apply map_id.
Qed.

Lemma std_deterministic : factory_deterministic describe_node_std.
Proof. intros n nets c1 c2. reflexivity. Qed.

Local Abbreviation std :=
  (describe_environment ci_environment_name describe_node_std).
Local Abbreviation strict :=
  (describe_environment ci_environment_name describe_node_strict).

(** The run of the example of the specification, in full. *)
Example std_example :
  std example_world
  = (inr (Environment.mk "swift" the_networks
            (map (fun n => Node.mk n (map Interface.mk the_networks))
               ["master"; "keystone-1"; "storage-1"; "storage-2"])),
     mkWorld
       (mkCi "swift" ["storage-2"; "storage-1"; "keystone-1"; "master"])
       example_settings).
Proof. reflexivity. Qed.

(** With no name in the settings, the master alone. *)
Example std_empty :
  fst (std empty_world)
  = inr (Environment.mk "swift" the_networks
           [Node.mk "master" (map Interface.mk the_networks)]).
Proof. reflexivity. Qed.

(** A name in two roles gives two nodes of that name with a factory that
    accepts it, and the exception of the factory with one that does not;
    the nodes described before the exception stay described. *)
Example std_clash :
  option_map (fun e => map Node.name (Environment.nodes e))
    (match fst (std clash_world) with inr e => Some e | inl _ => None end)
  = Some ["master"; "node-1"; "node-1"].
Proof. reflexivity. Qed.

Example strict_clash :
  strict clash_world
  = (inl (DuplicateNode "node-1"),
     mkWorld (mkCi "swift" ["node-1"; "master"]) (globals clash_world)).
Proof. reflexivity. Qed.

(** The run of the example makes four calls of the factory; the run that
    raises on the second [node-1] makes three. *)
Example counted_example :
  snd (self (snd (describe_environment
                    (fun s => ci_environment_name (fst s))
                    (counting describe_node_std)
                    (mkWorld (self example_world, 0) example_settings))))
  = 4.
Proof. reflexivity. Qed.

Example counted_clash :
  snd (self (snd (describe_environment
                    (fun s => ci_environment_name (fst s))
                    (counting describe_node_strict)
                    (mkWorld (self clash_world, 0) (globals clash_world)))))
  = 3.
Proof. reflexivity. Qed.

(** ** The theorems at concrete inputs *)

Lemma nodes_order_witness :
  exists env w',
    std example_world = (inr env, w')
    /\ map Node.name (Environment.nodes env)
       = ["master"; "keystone-1"; "storage-1"; "storage-2"].
Proof.
  eexists. eexists. split; [vm_compute; reflexivity|].
  exact (proj2 (nodes_order _ _ ci_environment_name describe_node_std
                  example_world _ _ eq_refl) std_names).
Defined.

Lemma three_networks_witness :
  exists env w',
    std full_world = (inr env, w')
    /\ Environment.networks env
       = [ Network.mk "internal" true;
           Network.mk "private" false;
           Network.mk "public" true ].
Proof.
  eexists. eexists. split; [vm_compute; reflexivity|].
  eapply (three_networks _ _ ci_environment_name describe_node_std
            full_world);
    [discriminate | discriminate | discriminate | vm_compute; reflexivity].
Defined.

Lemma nodes_count_witness :
  exists env w',
    std example_world = (inr env, w')
    /\ length (Environment.nodes env) = 1 + 1 + 2 + 0.
Proof.
  eexists. eexists. split; [vm_compute; reflexivity|].
  exact (nodes_count _ _ ci_environment_name describe_node_std
           example_world _ _ eq_refl).
Defined.

Lemma nodes_on_all_networks_witness :
  exists env w',
    std example_world = (inr env, w')
    /\ Forall2 (fun n nd =>
          (exists c c',
             describe_node_std n (Environment.networks env) c = (inr nd, c'))
          /\ Node.attached nd = Environment.networks env
          /\ length (Node.interfaces nd) = 3)
         ["master"; "keystone-1"; "storage-1"; "storage-2"]
         (Environment.nodes env).
Proof.
  eexists. eexists. split; [vm_compute; reflexivity|].
  eapply Forall2_impl;
    [| exact (proj2 (nodes_on_all_networks _ _ ci_environment_name
                       describe_node_std example_world _ _ eq_refl))].
  intros n nd (Hmade & Hatt). split; [exact Hmade | exact (Hatt std_attaches)].
Defined.

Lemma example_environment_witness :
  exists env w',
    std example_world = (inr env, w')
    /\ map Node.name (Environment.nodes env)
       = ["master"; "keystone-1"; "storage-1"; "storage-2"].
Proof.
  destruct (example_environment _ _ ci_environment_name describe_node_std
              (mkCi "swift" []) std_total std_names std_attaches)
    as (env & w' & Hrun & _ & Hnames & _).
  exists env, w'. split; [exact Hrun | exact Hnames].
Defined.

Lemma name_and_empty_lists_witness :
  exists env w',
    std empty_world = (inr env, w')
    /\ Environment.name env = "swift"
    /\ length (Environment.networks env) = 3
    /\ length (Environment.nodes env) = 1.
Proof.
  eexists. eexists. split; [vm_compute; reflexivity|].
  destruct (name_and_empty_lists _ _ ci_environment_name
              describe_node_std empty_world _ _ eq_refl) as (Hname & Hempty).
  destruct (Hempty eq_refl eq_refl eq_refl) as (Hnets & Hnodes & _).
  split; [exact Hname | split; [exact Hnets | exact Hnodes]].
Defined.

Lemma deterministic_witness :
  self example_world <> self used_world
  /\ fst (std example_world) = fst (std used_world).
Proof.
  split; [discriminate|].
  apply (deterministic _ _ ci_environment_name describe_node_std
           example_world used_world std_deterministic); reflexivity.
Defined.

Lemma raises_nothing_itself_witness :
  (exists env w', std clash_world = (inr env, w'))
  /\ (exists n c c',
        describe_node_strict n the_networks c
        = (inl (DuplicateNode "node-1"), c')).
Proof.
  split.
  - destruct (proj1 (raises_nothing_itself _ _ ci_environment_name
                       describe_node_std clash_world) std_total)
      as (env & w' & Hrun & _).
    now exists env, w'.
  - exact (proj2 (raises_nothing_itself _ _ ci_environment_name
                    describe_node_strict clash_world) _ _ eq_refl).
Defined.

(** The further properties at concrete inputs. *)

Lemma first_failure_propagates_witness :
  strict clash_world
  = (inl (DuplicateNode "node-1"),
     mkWorld (mkCi "swift" ["node-1"; "master"]) (globals clash_world)).
Proof.
  eapply (first_failure_propagates _ _ ci_environment_name
            describe_node_strict clash_world ["master"; "node-1"] []
            "node-1");
    [reflexivity | vm_compute; reflexivity | vm_compute; reflexivity].
Defined.

Lemma failure_at_first_failing_call_witness :
  exists pre n post,
    ["master"; "node-1"; "node-1"] = pre ++ n :: post
    /\ exists nds c1,
         describe_nodes describe_node_strict pre (self clash_world)
         = (inr nds, c1)
         /\ describe_node_strict n the_networks c1
            = (inl (DuplicateNode "node-1"),
               mkCi "swift" ["node-1"; "master"]).
Proof.
  destruct (failure_at_first_failing_call _ _ ci_environment_name
              describe_node_strict clash_world
              (mkWorld (mkCi "swift" ["node-1"; "master"])
                 (globals clash_world))
              (DuplicateNode "node-1") eq_refl)
    as (pre & n & post & nds & c1 & Hs & Hp & Hn & _).
  exists pre, n, post. split; [exact Hs|].
  exists nds, c1. split; [exact Hp | exact Hn].
Defined.

Lemma one_node_per_occurrence_witness :
  exists env w',
    std clash_world = (inr env, w')
    /\ count_occ string_dec (map Node.name (Environment.nodes env)) "node-1"
       = 2.
Proof.
  eexists. eexists. split; [vm_compute; reflexivity|].
  exact (one_node_per_occurrence _ _ ci_environment_name describe_node_std
           clash_world _ _ "node-1" std_names eq_refl).
Defined.

Lemma roles_leave_no_trace_witness :
  fst (std example_world)
  = fst (std (mkWorld (mkCi "swift" [])
                (settings.mk [] []
                   ["keystone-1"; "storage-1"; "storage-2"]))).
Proof.
  exact (proj1 (roles_leave_no_trace _ _ ci_environment_name
                  describe_node_std (mkCi "swift" []) example_settings
                  (settings.mk [] []
                     ["keystone-1"; "storage-1"; "storage-2"])
                  eq_refl)).
Defined.

Lemma one_more_proxy_witness :
  exists env w',
    std example_world = (inr env, w')
    /\ fst (std (mkWorld (mkCi "swift" [])
                   (settings.mk ["storage-1"; "storage-2"] ["proxy-1"]
                      ["keystone-1"])))
       = inr (Environment.nodes_append env
                (Node.mk "proxy-1" (map Interface.mk the_networks))).
Proof.
  eexists. eexists. split; [exact std_example|].
  exact (f_equal fst
           (one_more_proxy _ _ ci_environment_name describe_node_std
              (mkCi "swift" []) ["keystone-1"] ["storage-1"; "storage-2"]
              [] "proxy-1" _ _ std_example)).
Defined.

Lemma repeatable_witness :
  self (snd (std example_world)) <> self example_world
  /\ fst (std (snd (std example_world))) = fst (std example_world).
Proof.
  split; [discriminate|].
  apply (repeatable _ _ ci_environment_name describe_node_std example_world
           std_deterministic).
  intros n nets c. reflexivity.
Defined.

End CiSwift.
